(** * ren: the client-side facade of the o-ren prerenderer

    A shallow embedding of [src/index.ts].  The module exports one function
    object, [$oren], carrying the canonical configuration [$oren.options],
    the late-bound capability reference [$oren.$] and the operations
    [$oren.ok], [$oren.online], [$oren.wait] and [$oren.onion].

    Rocq identifiers cannot contain [$]; [$oren] is written [oren], a member
    [$oren.m] is written [oren_m], and the capability reference [$oren.$] is
    written [oren_cap]. *)

From Stdlib Require Import ZArith String Ascii List.
From stdpp Require Import base option list strings gmap fin_maps pretty.

Set Warnings "-register-all".
Local Open Scope Z_scope.

(** ** Values carried by a configuration *)

(** A JSON-stringify-able value, the payload of [Options.exports].  Objects
    keep their members in insertion order, as [JSON.stringify] walks them. *)
Inductive Json : Type :=
| JNull
| JBool (b : bool)
| JNum (n : Z)
| JStr (s : string)
| JArr (items : list Json)
| JObj (members : list (string * Json)).

(** An entry of [Options.removeNodes]: [string | Element].  A DOM element is
    an opaque host object; it is modelled by its identity. *)
Inductive NodeRef : Type :=
| Selector (css : string)
| ElementRef (id : nat).

(** [interface Options]: every member is optional ([?:]); an absent member
    reads as [undefined], here [None]. *)
Record Options : Type := mkOptions {
  autoRedirect : option Z;
  disabled : option bool;
  embedRuntimeStyles : option bool;
  embedStylesheets : option Z;
  exports : option (gmap string Json);
  httpEquiv : option bool;
  keepInjectedScripts : option bool;
  localStorage : option bool;
  preconnect : option bool;
  removeNodes : option (list NodeRef);
  sessionStorage : option bool;
  status : option Z
}.

(** The object literal [{}] cast to [Options]. *)
Definition empty_options : Options :=
  mkOptions None None None None None None None None None None None None.

(** [interface OnionAddr]. *)
Record OnionAddr : Type := mkOnionAddr {
  domain : string;
  hostname : string
}.

(** The parameter of [$oren.wait]: [{ timeoutMs: number }]. *)
Record WaitParams : Type := mkWaitParams {
  timeoutMs : Z
}.

(** The parameter handed to the capability's [mergeOpts]:
    [{ prev: Options; next: Partial<Options> }]. *)
Record MergeParams : Type := mkMergeParams {
  prev : Options;
  next : Options
}.

(** ** Outcomes of a call *)

(** What a call can raise.  [TypeError] is what the JavaScript engine raises
    when a member that is not a function is called; [HostError] stands for
    anything a capability member raises by itself. *)
Inductive Error : Type :=
| TypeError (what : string)
| HostError (what : string).

Inductive outcome (A : Type) : Type :=
| Returned (a : A)
| Thrown (e : Error).

Arguments Returned {A} a.
Arguments Thrown {A} e.

(** JavaScript truthiness of an optional boolean member: [undefined] and
    [false] are falsy. *)
Definition truthy (b : option bool) : bool := default false b.

Section Facade.

(** The private state of the rendering engine (its pending wait tokens and
    the like).  The facade never looks inside it. *)
Variable World : Type.

(** The mutable state a call can touch: the canonical configuration held
    in [$oren.options] and the engine's own state. *)
Record Store : Type := mkStore {
  oren_options : Options;
  world : World
}.

Definition set_oren_options (o : Options) (s : Store) : Store :=
  mkStore o (world s).

(** A computation over the store that returns or throws. *)
Definition M (A : Type) : Type := Store -> outcome (A * Store).

Definition ret {A} (a : A) : M A := fun s => Returned (a, s).

Definition throw {A} (e : Error) : M A := fun _ => Thrown e.

Definition bind {A B} (m : M A) (k : A -> M B) : M B :=
  fun s =>
    match m s with
    | Returned (a, s') => k a s'
    | Thrown e => Thrown e
    end.

Definition gets {A} (f : Store -> A) : M A := fun s => Returned (f s, s).

Definition modify (f : Store -> Store) : M unit :=
  fun s => Returned (tt, f s).

Notation "x <- m ;; k" := (bind m (fun x => k))
  (at level 100, m at next level, right associativity).
Notation "m ;;; k" := (bind m (fun _ => k))
  (at level 100, right associativity).

(** [interface WaitPromise].  [props] is [{'data-o-ren-wait': data}] or
    [{}]; [resolve] is a closure [() => void]. *)
Record WaitPromise : Type := mkWaitPromise {
  data : string;
  props : gmap string string;
  resolve : M unit
}.

(** The capability object [window['oy@o/o-ren']].  Its declared type makes
    the three members mandatory, but the object is whatever the page's
    window holds at load time, so a member may be missing at run time.
    Each member receives the facade itself as first argument; here it
    receives the store, through which it reads (and may write) the
    facade's configuration. *)
Record Backend : Type := mkBackend {
  mergeOpts : option (MergeParams -> M Options);
  wait : option (WaitParams -> M WaitPromise);
  onion : option (M (option OnionAddr))
}.

(** Calling a member: a missing member is [undefined], and calling it
    raises a [TypeError]. *)
Definition call_member {A} (name : string) (member : option (M A)) : M A :=
  match member with
  | Some f => f
  | None => throw (TypeError name)
  end.

(** [$oren.$ = window['oy@o/o-ren']], assigned once when the module is
    loaded: [None] is [undefined]. *)
Variable oren_cap : option Backend.

(** [$oren.$api]. *)
Definition oren_api : string := "1.1".

(** [$oren.online]: [!!$oren.$]. *)
Definition oren_online : bool :=
  match oren_cap with
  | Some _ => true
  | None => false
  end.

(** [$oren.ok]: [$oren.online() && !$oren.options.disabled]. *)
Definition oren_ok (s : Store) : bool :=
  oren_online && negb (truthy (disabled (oren_options s))).

(** [$oren(opts)]:
    [if (!$oren.ok() || !$oren.$) return opts]; otherwise
    [$oren.options = $oren.$.mergeOpts($oren, {prev: $oren.options, next: opts})]
    and [return $oren.options]. *)
Definition oren (opts : Options) : M Options :=
  available <- gets oren_ok ;;
  match available, oren_cap with
  | true, Some b =>
      previous <- gets oren_options ;;
      merged <- call_member "mergeOpts"
                  (option_map (fun f => f (mkMergeParams previous opts))
                              (mergeOpts b)) ;;
      modify (set_oren_options merged) ;;;
      gets oren_options
  | _, _ => ret opts
  end.

(** The default value of the parameter of [$oren.wait]. *)
Definition default_wait_params : WaitParams := mkWaitParams 5000.

(** The object [$oren.wait] builds when the renderer is not usable:
    [{ data: '', props: {}, resolve: () => {} }]. *)
Definition inert_promise : WaitPromise :=
  mkWaitPromise EmptyString ∅ (ret tt).

(** [$oren.wait(p = { timeoutMs: 5000 })]:
    [$oren.ok() && $oren.$ ? $oren.$.wait($oren, p) : {data: '', ...}].
    A call without argument (or with [undefined]) is [None]. *)
Definition oren_wait (arg : option WaitParams) : M WaitPromise :=
  let p := default default_wait_params arg in
  available <- gets oren_ok ;;
  match available, oren_cap with
  | true, Some b =>
      call_member "wait" (option_map (fun f => f p) (wait b))
  | _, _ => ret inert_promise
  end.

(** [$oren.onion()]: [$oren.$ && $oren.$.onion($oren)]. *)
Definition oren_onion : M (option OnionAddr) :=
  match oren_cap with
  | Some b => call_member "onion" (onion b)
  | None => ret None
  end.

End Facade.

Arguments mkStore {World} _ _.
Arguments oren_options {World} _.
Arguments world {World} _.
Arguments set_oren_options {World} _ _.
Arguments ret {World A} _ _.
Arguments throw {World A} _ _.
Arguments bind {World A B} _ _ _.
Arguments gets {World A} _ _.
Arguments modify {World} _ _.
Arguments mkWaitPromise {World} _ _ _.
Arguments data {World} _.
Arguments props {World} _.
Arguments resolve {World} _.
Arguments mkBackend {World} _ _ _.
Arguments mergeOpts {World} _.
Arguments wait {World} _.
Arguments onion {World} _.
Arguments call_member {World A} _ _.
Arguments oren_online {World} _.
Arguments oren_ok {World} _ _.
Arguments oren {World} _ _.
Arguments oren_wait {World} _ _.
Arguments oren_onion {World} _.
Arguments inert_promise {World}.

(** Running the same computation [n] times in a row. *)
Fixpoint repeat_call {World} (n : nat) (m : M World unit) : M World unit :=
  match n with
  | O => ret tt
  | S n' => bind m (fun _ => repeat_call n' m)
  end.

(** Calling [$oren] on each partial configuration of a list, in order, and
    collecting what each call returns. *)
Fixpoint oren_each {World} (cap : option (Backend World))
    (calls : list Options) : M World (list Options) :=
  match calls with
  | [] => ret []
  | opts :: rest =>
      bind (oren cap opts) (fun r =>
      bind (oren_each cap rest) (fun rs => ret (r :: rs)))
  end.

(** The state of the facade when the module has just been loaded:
    [$oren.options = {} as Options]. *)
Definition initial_store {World} (w : World) : Store World :=
  mkStore empty_options w.

(** ** ConfigMerger *)

(** Modelled from the spec: the per-field policies of the ConfigMerger
    (section 4.2), performed by the capability's [mergeOpts], whose code is
    not part of this repository.  Scalar and flag members are overwritten by
    the partial's value. *)
Definition replace_field {A} (previous partial : option A) : option A :=
  match partial with
  | Some v => Some v
  | None => previous
  end.

(** Modelled from the spec: a list member becomes the previous list followed
    by the partial's list (ConfigMerger, section 4.2; code absent). *)
Definition append_field {A} (previous partial : option (list A))
    : option (list A) :=
  match partial with
  | Some l => Some (default [] previous ++ l)
  | None => previous
  end.

(** Modelled from the spec: a map member becomes the shallow merge of both
    maps, the partial's keys winning (ConfigMerger, section 4.2; code
    absent).  [∪] on [gmap] keeps the left operand's value on conflict. *)
Definition merge_field {V} (previous partial : option (gmap string V))
    : option (gmap string V) :=
  match partial with
  | Some m => Some (m ∪ default ∅ previous)
  | None => previous
  end.

(** Modelled from the spec: [merge(previous, partial)] of the ConfigMerger
    (section 4.2), the function the capability's [mergeOpts] is specified to
    compute; its code is not part of this repository. *)
Definition merge (previous partial : Options) : Options :=
  {| autoRedirect := replace_field (autoRedirect previous) (autoRedirect partial);
     disabled := replace_field (disabled previous) (disabled partial);
     embedRuntimeStyles :=
       replace_field (embedRuntimeStyles previous) (embedRuntimeStyles partial);
     embedStylesheets :=
       replace_field (embedStylesheets previous) (embedStylesheets partial);
     exports := merge_field (exports previous) (exports partial);
     httpEquiv := replace_field (httpEquiv previous) (httpEquiv partial);
     keepInjectedScripts :=
       replace_field (keepInjectedScripts previous) (keepInjectedScripts partial);
     localStorage := replace_field (localStorage previous) (localStorage partial);
     preconnect := replace_field (preconnect previous) (preconnect partial);
     removeNodes := append_field (removeNodes previous) (removeNodes partial);
     sessionStorage :=
       replace_field (sessionStorage previous) (sessionStorage partial);
     status := replace_field (status previous) (status partial) |}.

(** The names of the members of [interface Options]. *)
Inductive OptionName : Type :=
| AutoRedirect | Disabled | EmbedRuntimeStyles | EmbedStylesheets | Exports
| HttpEquiv | KeepInjectedScripts | LocalStorage | Preconnect | RemoveNodes
| SessionStorage | Status.

(** Modelled from the spec: the four merge kinds of the data model
    (section 3). *)
Inductive Kind : Type := ScalarReplace | Flag | ListAppend | MapMerge.

(** Modelled from the spec: the kind of each member, which follows its
    declared type as the documentation of [$oren] has it: numbers are
    scalars, booleans are flags, the array is a list and the object is a
    map. *)
Definition kind (f : OptionName) : Kind :=
  match f with
  | AutoRedirect | EmbedStylesheets | Status => ScalarReplace
  | Disabled | EmbedRuntimeStyles | HttpEquiv | KeepInjectedScripts
  | LocalStorage | Preconnect | SessionStorage => Flag
  | RemoveNodes => ListAppend
  | Exports => MapMerge
  end.

(** What a member of an [Options] object can hold. *)
Inductive OptionValue : Type :=
| NumberValue (n : Z)
| BoolValue (b : bool)
| ListValue (l : list NodeRef)
| MapValue (m : gmap string Json).

(** Reading a member by name: [o[f]]. *)
Definition field (f : OptionName) (o : Options) : option OptionValue :=
  match f with
  | AutoRedirect => NumberValue <$> autoRedirect o
  | Disabled => BoolValue <$> disabled o
  | EmbedRuntimeStyles => BoolValue <$> embedRuntimeStyles o
  | EmbedStylesheets => NumberValue <$> embedStylesheets o
  | Exports => MapValue <$> exports o
  | HttpEquiv => BoolValue <$> httpEquiv o
  | KeepInjectedScripts => BoolValue <$> keepInjectedScripts o
  | LocalStorage => BoolValue <$> localStorage o
  | Preconnect => BoolValue <$> preconnect o
  | RemoveNodes => ListValue <$> removeNodes o
  | SessionStorage => BoolValue <$> sessionStorage o
  | Status => NumberValue <$> status o
  end.

(** The list held by a list member, an absent member counting as empty. *)
Definition list_of (v : option OptionValue) : list NodeRef :=
  match v with
  | Some (ListValue l) => l
  | _ => []
  end.

(** The map held by a map member, an absent member counting as empty. *)
Definition map_of (v : option OptionValue) : gmap string Json :=
  match v with
  | Some (MapValue m) => m
  | _ => ∅
  end.

(** A capability performs the canonical merge when its [mergeOpts] member
    exists and returns [merge prev next] without touching the store. *)
Definition canonical_merge {World} (b : Backend World) : Prop :=
  exists f, mergeOpts b = Some f /\
    forall p s, f p s = Returned (merge (prev p) (next p), s).

(** ** Escaper *)

Module Escaper.

Local Open Scope string_scope.

(** The double quote and the backslash, as characters. *)
Definition dquote : ascii := "034"%char.
Definition backslash : ascii := "092"%char.

(** Modelled from the spec: the numeric escapes of [&], [<] and [>] that
    the documentation of [Options.exports] lists (a backslash, the letter u
    and the four hexadecimal digits of the character's code). *)
Definition escaped_amp : string := String backslash "u0026".
Definition escaped_lt : string := String backslash "u003c".
Definition escaped_gt : string := String backslash "u003e".

(** Modelled from the spec: one global replacement, as
    [s.replace(/c/g, by)] performs it (Escaper, section 4.1; its code is not
    part of this repository). *)
Fixpoint replace_all (c : ascii) (by_ : string) (s : string) : string :=
  match s with
  | EmptyString => EmptyString
  | String a rest =>
      if Ascii.eqb a c then by_ +:+ replace_all c by_ rest
      else String a (replace_all c by_ rest)
  end.

(** Modelled from the spec: the three replacements the documentation of
    [Options.exports] lists, applied one after the other to the JSON text
    (Escaper, section 4.1; code absent). *)
Definition escape (json : string) : string :=
  replace_all ">" escaped_gt
    (replace_all "<" escaped_lt (replace_all "&" escaped_amp json)).

(** Modelled from the spec: what section 4.1 says of a single character of
    the JSON text: [&], [<] and [>] are replaced by their numeric escape, no
    other character is altered. *)
Definition escape_char (a : ascii) : string :=
  if Ascii.eqb a "&" then escaped_amp
  else if Ascii.eqb a "<" then escaped_lt
  else if Ascii.eqb a ">" then escaped_gt
  else String a EmptyString.

(** Modelled from the spec: the escaping in the words of section 4.1, every
    character of the JSON text being replaced by its [escape_char]; it is
    the specification [escape] is compared with. *)
Fixpoint escape_spec (json : string) : string :=
  match json with
  | EmptyString => EmptyString
  | String a rest => escape_char a +:+ escape_spec rest
  end.

(** Whether a character occurs in a string. *)
Fixpoint occurs (c : ascii) (s : string) : bool :=
  match s with
  | EmptyString => false
  | String a rest => Ascii.eqb a c || occurs c rest
  end.

(** A lower-case hexadecimal digit. *)
Definition hex_digit (n : nat) : ascii :=
  match n with
  | 0 => "0" | 1 => "1" | 2 => "2" | 3 => "3" | 4 => "4" | 5 => "5"
  | 6 => "6" | 7 => "7" | 8 => "8" | 9 => "9" | 10 => "a" | 11 => "b"
  | 12 => "c" | 13 => "d" | 14 => "e" | _ => "f"
  end%nat%char.

(** Modelled from the spec: how [JSON.stringify] writes one character of a
    string (QuoteJSONString of ECMAScript; the JSON encoder is the host's,
    not this repository's). *)
Definition quote_char (a : ascii) : string :=
  let n := nat_of_ascii a in
  if Nat.eqb n 8 then String backslash "b"
  else if Nat.eqb n 9 then String backslash "t"
  else if Nat.eqb n 10 then String backslash "n"
  else if Nat.eqb n 12 then String backslash "f"
  else if Nat.eqb n 13 then String backslash "r"
  else if Nat.eqb n 34 then String backslash (String dquote EmptyString)
  else if Nat.eqb n 92 then String backslash (String backslash EmptyString)
  else if Nat.ltb n 32 then
    String backslash
      ("u00" +:+ String (hex_digit (n / 16)) (String (hex_digit (n mod 16)) EmptyString))
  else String a EmptyString.

(** Modelled from the spec: a JSON string literal ([JSON.stringify] of a
    string; host code). *)
Fixpoint quote_body (s : string) : string :=
  match s with
  | EmptyString => EmptyString
  | String a rest => quote_char a +:+ quote_body rest
  end.

(** Modelled from the spec: the string literal with its surrounding quotes
    (host code). *)
Definition quote (s : string) : string :=
  String dquote (quote_body s +:+ String dquote EmptyString).

(** Joining already encoded items with commas. *)
Fixpoint join_commas (items : list string) : string :=
  match items with
  | [] => EmptyString
  | [x] => x
  | x :: rest => x +:+ "," +:+ join_commas rest
  end.

(** Modelled from the spec: the JSON encoding of a value with no
    indentation ([JSON.stringify(v)]; host code). *)
Fixpoint stringify (v : Json) : string :=
  match v with
  | JNull => "null"
  | JBool true => "true"
  | JBool false => "false"
  | JNum n => pretty n
  | JStr s => quote s
  | JArr items => "[" +:+ join_commas (map stringify items) +:+ "]"
  | JObj members =>
      "{" +:+
      join_commas (map (fun kv => quote (fst kv) +:+ ":" +:+ stringify (snd kv)) members)
      +:+ "}"
  end.

(** Modelled from the spec: [Escaper.encode], the JSON encoding followed by
    the escaping (section 4.1; code absent). *)
Definition encode (v : Json) : string := escape (stringify v).

End Escaper.

(** ** A reference capability *)

(** Modelled from the spec: the private state of a WaitCoordinator
    (section 4.3), whose code lives in the rendering engine: the next token
    number and the tokens still pending. *)
Record Coordinator : Type := mkCoordinator {
  next_token : nat;
  pending : gset nat
}.

(** The fixed attribute name of the DOM marker convention. *)
Definition wait_attribute : string := "data-o-ren-wait".

(** Modelled from the spec: [resolveExplicit(token)] of the WaitCoordinator
    (section 4.3; engine code): a pending token becomes resolved, a resolved
    one stays so. *)
Definition resolve_token (id : nat) : M Coordinator unit :=
  modify (fun s =>
    mkStore (oren_options s)
            (mkCoordinator (next_token (world s)) (pending (world s) ∖ {[id]}))).

(** Modelled from the spec: [issue(timeoutHint)] of the WaitCoordinator
    (section 4.3; engine code): a fresh pending token with its marker, its
    props and its resolve callback. *)
Definition issue (p : WaitParams) : M Coordinator (WaitPromise Coordinator) :=
  fun s =>
    let id := next_token (world s) in
    let marker := pretty id in
    Returned
      (mkWaitPromise marker {[wait_attribute := marker]} (resolve_token id),
       mkStore (oren_options s)
               (mkCoordinator (S id) ({[id]} ∪ pending (world s)))).

(** The address the reference capability reports. *)
Definition reference_addr : OnionAddr :=
  mkOnionAddr "t0r.onion" "api.t0r.onion".

(** Modelled from the spec: a capability object with the shape of section 6,
    merging with the ConfigMerger and waiting with the WaitCoordinator (the
    engine's code is not part of this repository). *)
Definition reference_backend : Backend Coordinator :=
  mkBackend
    (Some (fun p => ret (merge (prev p) (next p))))
    (Some issue)
    (Some (ret (Some reference_addr))).

(** A capability object that lacks all three members. *)
Definition hollow_backend : Backend Coordinator :=
  mkBackend None None None.

(** An idle coordinator. *)
Definition idle : Coordinator := mkCoordinator 0 ∅.

(** The partial configurations of the scenarios: [{disabled: true}] and
    [{status: 404}]. *)
Definition opts_disabled : Options :=
  mkOptions None (Some true) None None None None None None None None None None.

Definition opts_404 : Options :=
  mkOptions None None None None None None None None None None None (Some 404).

(** The facade after [{disabled: true}] has been merged in, the engine
    being idle. *)
Definition disabled_store : Store Coordinator := mkStore opts_disabled idle.

(** Whether the capability object is there: the truthiness of [$oren.$]. *)
Definition present {World} (cap : option (Backend World)) : bool :=
  bool_decide (is_Some cap).

(** ** Sessions of calls *)

(** One call of the public surface: [$oren(opts)], [$oren.wait(arg)] or
    [$oren.onion()]. *)
Inductive Call : Type :=
| CallOren (opts : Options)
| CallWait (arg : option WaitParams)
| CallOnion.

(** What such a call hands back. *)
Inductive Answer (World : Type) : Type :=
| AnsOptions (o : Options)
| AnsPromise (t : WaitPromise World)
| AnsAddr (a : option OnionAddr).

Arguments AnsOptions {World} o.
Arguments AnsPromise {World} t.
Arguments AnsAddr {World} a.

(** Performing one call on the facade. *)
Definition perform {World} (cap : option (Backend World)) (c : Call)
    : M World (Answer World) :=
  match c with
  | CallOren opts => bind (oren cap opts) (fun r => ret (AnsOptions r))
  | CallWait arg => bind (oren_wait cap arg) (fun t => ret (AnsPromise t))
  | CallOnion => bind (oren_onion cap) (fun a => ret (AnsAddr a))
  end.

(** Performing the calls of a page one after the other; a call that throws
    ends the session. *)
Fixpoint session {World} (cap : option (Backend World)) (calls : list Call)
    : M World (list (Answer World)) :=
  match calls with
  | [] => ret []
  | c :: rest =>
      bind (perform cap c) (fun a =>
      bind (session cap rest) (fun answers => ret (a :: answers)))
  end.

(** The answer of the degraded branch of each operation: the input itself,
    the inert token, [undefined]. *)
Definition offline_answer {World} (c : Call) : Answer World :=
  match c with
  | CallOren opts => AnsOptions opts
  | CallWait _ => AnsPromise inert_promise
  | CallOnion => AnsAddr None
  end.

(** Whether a call is [$oren.onion()]. *)
Definition is_onion (c : Call) : bool :=
  match c with
  | CallOnion => true
  | _ => false
  end.

(** A capability whose [mergeOpts] computes its result from its parameter
    alone and leaves the store as it is. *)
Definition pure_merge {World} (b : Backend World)
    (g : MergeParams -> Options) : Prop :=
  exists f, mergeOpts b = Some f /\
    forall p s, f p s = Returned (g p, s).

(** What [$oren(opts)] leaves in [$oren.options] when it starts from the
    configuration [acc] with such a capability: the guard keeps [acc] when
    [acc.disabled] is truthy, the assignment stores the merge otherwise. *)
Definition configure_step (g : MergeParams -> Options) (acc opts : Options)
    : Options :=
  if truthy (disabled acc) then acc else g (mkMergeParams acc opts).

(** What that call returns: [opts] at the guard, the stored merge
    otherwise. *)
Definition configure_answer (g : MergeParams -> Options) (acc opts : Options)
    : Options :=
  if truthy (disabled acc) then opts else g (mkMergeParams acc opts).

(** The values returned by a series of calls of [$oren]. *)
Fixpoint configure_answers (g : MergeParams -> Options) (acc : Options)
    (calls : list Options) : list Options :=
  match calls with
  | [] => []
  | opts :: rest =>
      configure_answer g acc opts
        :: configure_answers g (configure_step g acc opts) rest
  end.

(** A capability object whose three members all raise. *)
Definition failing_backend : Backend Coordinator :=
  mkBackend
    (Some (fun _ => throw (HostError "mergeOpts failed")))
    (Some (fun _ => throw (HostError "wait failed")))
    (Some (throw (HostError "onion failed"))).

(** The partial configuration [{disabled: false}]. *)
Definition opts_enabled : Options :=
  mkOptions None (Some false) None None None None None None None None None None.

(** ** Loading the module *)

(** The own properties of the function object [$oren] once the module body
    has run: [$oren.options], [$oren.$api] and [$oren.$]. *)
Record Facade (World : Type) : Type := mkFacade {
  facade_options : Options;
  facade_api : string;
  facade_cap : option (Backend World)
}.

Arguments mkFacade {World} _ _ _.
Arguments facade_options {World} _.
Arguments facade_api {World} _.
Arguments facade_cap {World} _.

(** The two properties of [window] the module touches:
    [window['oy@o/o-ren']] and [window.$oren]. *)
Record Window (World : Type) : Type := mkWindow {
  window_capability : option (Backend World);
  window_oren : option (Facade World)
}.

Arguments mkWindow {World} _ _.
Arguments window_capability {World} _.
Arguments window_oren {World} _.

(** The statements of the module body, in order: [$oren.options = {}],
    [$oren.$api = '1.1'], [$oren.$ = window['oy@o/o-ren']] and
    [window.$oren = $oren]. *)
Definition module_body {World} (win : Window World)
    : Facade World * Window World :=
  let f := mkFacade empty_options oren_api (window_capability win) in
  (f, mkWindow (window_capability win) (Some f)).

(** What the wrapper of [dist/index.js] tests of its host:
    [typeof module === "object"], [typeof module.exports === "object"],
    [typeof define === "function"] and the truthiness of [define.amd]. *)
Record ModuleHost : Type := mkModuleHost {
  module_is_object : bool;
  module_exports_is_object : bool;
  define_is_function : bool;
  define_amd : bool
}.

(** The page after [dist/index.js] has been evaluated: its window, the
    facade put in [exports.$oren] if any, whether [exports.__esModule] was
    defined, whether [module.exports] was reassigned, and the dependency
    list handed to [define] if [define] was called. *)
Record Loaded (World : Type) : Type := mkLoaded {
  loaded_window : Window World;
  exports_oren : option (Facade World);
  exports_esModule : bool;
  module_exports_replaced : bool;
  amd_defined : option (list string)
}.

Arguments mkLoaded {World} _ _ _ _ _.
Arguments loaded_window {World} _.
Arguments exports_oren {World} _.
Arguments exports_esModule {World} _.
Arguments module_exports_replaced {World} _.
Arguments amd_defined {World} _.

(** The wrapper of [dist/index.js]:
    with a CommonJS [module] it runs [factory(require, exports)] and
    reassigns [module.exports] only if the factory returned something other
    than [undefined] (it returns nothing); else with an AMD [define] it calls
    [define(["require", "exports"], factory)], leaving the run of the factory
    to the loader; else it does nothing. *)
Definition umd_load {World} (h : ModuleHost) (win : Window World)
    : Loaded World :=
  if module_is_object h && module_exports_is_object h then
    let '(f, win') := module_body win in
    mkLoaded win' (Some f) true false None
  else if define_is_function h && define_amd h then
    mkLoaded win None false false (Some ["require"; "exports"]%string)
  else
    mkLoaded win None false false None.

(** * Properties of the facade *)

Section FacadeFacts.

Variable World : Type.
Implicit Types (cap : option (Backend World)) (b : Backend World).
Implicit Types (s : Store World) (opts : Options).

(** ** Unfolding the three operations *)

Lemma online_present cap : oren_online cap = true <-> is_Some cap.
Proof.
  destruct cap as [b|]; simpl; split; intros H; try done.
Qed.

Lemma ok_absent s : oren_ok (None : option (Backend World)) s = false.
Proof. reflexivity. Qed.

Lemma ok_present b s :
  oren_ok (Some b) s = negb (truthy (disabled (oren_options s))).
Proof. reflexivity. Qed.

Lemma ok_disabled cap s :
  disabled (oren_options s) = Some true -> oren_ok cap s = false.
Proof.
  intros H. unfold oren_ok. rewrite H. simpl. apply andb_false_r.
Qed.

Lemma oren_degraded cap opts s :
  oren_ok cap s = false -> oren cap opts s = Returned (opts, s).
Proof.
  intros H. unfold oren, bind, gets. rewrite H. reflexivity.
Qed.

Lemma oren_delegates b opts s :
  oren_ok (Some b) s = true ->
  oren (Some b) opts s =
    match mergeOpts b with
    | Some f =>
        match f (mkMergeParams (oren_options s) opts) s with
        | Returned (merged, s') =>
            Returned (merged, set_oren_options merged s')
        | Thrown e => Thrown e
        end
    | None => Thrown (TypeError "mergeOpts")
    end.
Proof.
  intros H. unfold oren, bind, gets. rewrite H.
  destruct (mergeOpts b) as [f|]; simpl; [|reflexivity].
  destruct (f _ s) as [[merged s']|e]; reflexivity.
Qed.

Lemma wait_degraded cap arg s :
  oren_ok cap s = false -> oren_wait cap arg s = Returned (inert_promise, s).
Proof.
  intros H. unfold oren_wait, bind, gets. rewrite H. reflexivity.
Qed.

Lemma wait_delegates b arg s :
  oren_ok (Some b) s = true ->
  oren_wait (Some b) arg s =
    match wait b with
    | Some f => f (default default_wait_params arg) s
    | None => Thrown (TypeError "wait")
    end.
Proof.
  intros H. unfold oren_wait, bind, gets. rewrite H.
  destruct (wait b); reflexivity.
Qed.

Lemma onion_absent s :
  oren_onion (None : option (Backend World)) s = Returned (None, s).
Proof. reflexivity. Qed.

Lemma onion_present b s :
  oren_onion (Some b) s =
    match onion b with
    | Some f => f s
    | None => Thrown (TypeError "onion")
    end.
Proof. unfold oren_onion. destruct (onion b); reflexivity. Qed.

Lemma repeat_inert n s :
  repeat_call n (resolve (@inert_promise World)) s = Returned (tt, s).
Proof.
  induction n as [|n IH]; [reflexivity|].
  simpl. unfold bind. simpl. exact IH.
Qed.

Lemma oren_each_degraded cap calls s :
  oren_ok cap s = false -> oren_each cap calls s = Returned (calls, s).
Proof.
  intros H. induction calls as [|opts rest IH]; [reflexivity|].
  simpl. unfold bind at 1. rewrite (oren_degraded _ _ _ H).
  unfold bind at 1. rewrite IH. reflexivity.
Qed.

Lemma set_same_options s : set_oren_options (oren_options s) s = s.
Proof. by destruct s. Qed.

End FacadeFacts.

(** * Properties of the ConfigMerger *)

Section MergeFacts.

Implicit Types (P N Q : Options) (f : OptionName).

Lemma merge_empty_r Q : merge Q empty_options = Q.
Proof. destruct Q; reflexivity. Qed.

Lemma merge_absent P N f :
  field f N = None -> field f (merge P N) = field f P.
Proof.
  destruct f; simpl; intros H;
    apply fmap_None in H; rewrite H; reflexivity.
Qed.

Lemma merge_overwrites P N f v :
  kind f = ScalarReplace \/ kind f = Flag ->
  field f N = Some v -> field f (merge P N) = Some v.
Proof.
  intros Hk H.
  destruct f; simpl in *; try (destruct Hk; discriminate);
    apply fmap_Some in H as (x & Hx & ->); rewrite Hx; reflexivity.
Qed.

Lemma merge_appends P N f :
  kind f = ListAppend -> is_Some (field f N) ->
  field f (merge P N) =
    Some (ListValue (list_of (field f P) ++ list_of (field f N))).
Proof.
  intros Hk [v H]. destruct f; try discriminate. simpl in *.
  apply fmap_Some in H as (l & Hl & ->). rewrite Hl. simpl.
  destruct (removeNodes P); reflexivity.
Qed.

Lemma merge_merges P N f :
  kind f = MapMerge -> is_Some (field f N) ->
  exists m, field f (merge P N) = Some (MapValue m) /\
    forall k : string,
      m !! k =
        match map_of (field f N) !! k with
        | Some v => Some v
        | None => map_of (field f P) !! k
        end.
Proof.
  intros Hk [v H]. destruct f; try discriminate. simpl in *.
  apply fmap_Some in H as (n & Hn & ->). rewrite Hn. simpl.
  exists (n ∪ default ∅ (exports P)). split; [reflexivity|].
  intros k. rewrite lookup_union.
  assert (map_of (MapValue <$> exports P) = default ∅ (exports P)) as ->
    by (destruct (exports P); reflexivity).
  destruct (n !! k), (default ∅ (exports P) !! k); reflexivity.
Qed.

End MergeFacts.

(** * Properties of the Escaper *)

Section EscaperFacts.

Import Escaper.
Local Open Scope string_scope.

Implicit Types (s t : string) (c a : ascii).

Lemma append_nil t : "" +:+ t = t.
Proof. reflexivity. Qed.

Lemma append_cons a s t : String a s +:+ t = String a (s +:+ t).
Proof. reflexivity. Qed.

Lemma append_assoc s t u : (s +:+ t) +:+ u = s +:+ (t +:+ u).
Proof.
  induction s as [|a s IH]; [reflexivity|].
  rewrite !append_cons, IH. reflexivity.
Qed.

Lemma occurs_app c s t : occurs c (s +:+ t) = occurs c s || occurs c t.
Proof.
  induction s as [|a s IH]; [reflexivity|].
  rewrite append_cons. simpl. rewrite IH. apply orb_assoc.
Qed.

Lemma replace_all_app c by_ s t :
  replace_all c by_ (s +:+ t) = replace_all c by_ s +:+ replace_all c by_ t.
Proof.
  induction s as [|a s IH]; [reflexivity|].
  rewrite append_cons. simpl. rewrite IH.
  destruct (Ascii.eqb a c); [|reflexivity].
  symmetry. apply append_assoc.
Qed.

Lemma replace_all_absent c by_ s :
  occurs c s = false -> replace_all c by_ s = s.
Proof.
  induction s as [|a s IH]; simpl; [reflexivity|].
  intros H. apply orb_false_iff in H as [Ha Hs].
  rewrite Ha, (IH Hs). reflexivity.
Qed.

(** The three passes of [escape] on one character give [escape_char]. *)
Lemma escape_single a : escape (String a "") = escape_char a.
Proof.
  unfold escape, escape_char. simpl.
  destruct (Ascii.eqb_spec a "&") as [->|Hamp]; [reflexivity|]. simpl.
  destruct (Ascii.eqb_spec a "<") as [->|Hlt]; [reflexivity|]. simpl.
  destruct (Ascii.eqb_spec a ">") as [->|Hgt]; reflexivity.
Qed.

Lemma escape_app s t : escape (s +:+ t) = escape s +:+ escape t.
Proof. unfold escape. by rewrite !replace_all_app. Qed.

(** The three successive replacements are the character-wise escaping. *)
Lemma escape_charwise s : escape s = escape_spec s.
Proof.
  induction s as [|a s IH]; [reflexivity|].
  change (String a s) with (String a "" +:+ s).
  rewrite escape_app, escape_single, IH. reflexivity.
Qed.

Lemma escape_char_clean a c :
  c = "&"%char \/ c = "<"%char \/ c = ">"%char ->
  occurs c (escape_char a) = false.
Proof.
  intros Hc. unfold escape_char.
  destruct (Ascii.eqb_spec a "&") as [->|Hamp];
    [destruct Hc as [->|[->| ->]]; reflexivity|].
  destruct (Ascii.eqb_spec a "<") as [->|Hlt];
    [destruct Hc as [->|[->| ->]]; reflexivity|].
  destruct (Ascii.eqb_spec a ">") as [->|Hgt];
    [destruct Hc as [->|[->| ->]]; reflexivity|].
  simpl. rewrite orb_false_r. apply Ascii.eqb_neq.
  destruct Hc as [->|[->| ->]]; assumption.
Qed.

Lemma escape_spec_clean s c :
  c = "&"%char \/ c = "<"%char \/ c = ">"%char ->
  occurs c (escape_spec s) = false.
Proof.
  intros Hc. induction s as [|a s IH]; simpl; [reflexivity|].
  rewrite occurs_app, IH, (escape_char_clean _ _ Hc). reflexivity.
Qed.

(** A text free of the three characters is left as it is. *)
Lemma escape_untouched s :
  occurs "&" s = false -> occurs "<" s = false -> occurs ">" s = false ->
  escape s = s.
Proof.
  intros Hamp Hlt Hgt. unfold escape.
  rewrite (replace_all_absent "&" _ _ Hamp).
  rewrite (replace_all_absent "<" _ _ Hlt).
  apply (replace_all_absent ">" _ _ Hgt).
Qed.

(** The scenario of the spec: the object [{a: "<b>&c"}]. *)
Example encode_scenario :
  encode (JObj [("a", JStr "<b>&c")]) =
    "{" +:+ quote "a" +:+ ":" +:+
    String dquote (escaped_lt +:+ "b" +:+ escaped_gt +:+ escaped_amp +:+ "c"
                   +:+ String dquote "}").
Proof. reflexivity. Qed.

End EscaperFacts.

(** * The gate in front of the operations *)

(** C1, as stated, fails on the code: with the capability present and the
    stored [disabled] flag set, availability is false, yet [$oren.onion]
    calls the capability's [onion] member and returns its address instead of
    the absent value. *)
Lemma onion_when_disabled :
  oren_ok (Some reference_backend) disabled_store = false /\
  oren_onion (Some reference_backend) disabled_store =
    Returned (Some reference_addr, disabled_store) /\
  oren_onion (Some reference_backend) disabled_store <>
    Returned (None, disabled_store).
Proof. repeat split. discriminate. Qed.

(** C1, as amended: [$oren.ok] is (capability present AND NOT
    [options.disabled]); [$oren] and [$oren.wait] evaluate it first and take
    their degraded branch (input returned unchanged, inert token) whenever it
    is false, leaving the store as it was.  [$oren.onion] looks only at the
    presence of the capability object: it returns the absent value when the
    object is absent, and calls the capability's [onion] member whenever the
    object is present, whatever the [disabled] flag holds. *)
Theorem gating_of_operations {World} (cap : option (Backend World))
    (s : Store World) :
  oren_ok cap s = present cap && negb (truthy (disabled (oren_options s))) /\
  (oren_ok cap s = false ->
     (forall opts, oren cap opts s = Returned (opts, s)) /\
     (forall arg, oren_wait cap arg s = Returned (inert_promise, s))) /\
  oren_onion None s = Returned (None, s) /\
  (forall b f, onion b = Some f -> oren_onion (Some b) s = f s).
Proof.
  repeat split.
  - by destruct cap.
  - intros opts. by apply oren_degraded.
  - intros arg. by apply wait_degraded.
  - intros b f Hf. by rewrite onion_present, Hf.
Qed.

Lemma gating_of_operations_witness :
  oren_ok (Some reference_backend) disabled_store = false /\
  oren (Some reference_backend) opts_404 disabled_store =
    Returned (opts_404, disabled_store) /\
  oren_wait (Some reference_backend) None disabled_store =
    Returned (inert_promise, disabled_store) /\
  oren_onion (Some reference_backend) disabled_store =
    Returned (Some reference_addr, disabled_store).
Proof.
  destruct (gating_of_operations (Some reference_backend) disabled_store)
    as (_ & Hdegraded & _ & Honion).
  destruct (Hdegraded eq_refl) as [Hconf Hwait].
  split; [reflexivity|].
  split; [apply Hconf|].
  split; [apply Hwait|].
  apply (Honion reference_backend (ret (Some reference_addr))). reflexivity.
Defined.

(** C2, as stated, fails on the code: a capability object that is present
    but lacks its members makes each operation call [undefined], which
    raises a [TypeError] instead of giving the offline result. *)
Lemma missing_member_throws :
  oren (Some hollow_backend) opts_404 (initial_store idle) =
    Thrown (TypeError "mergeOpts") /\
  oren_wait (Some hollow_backend) None (initial_store idle) =
    Thrown (TypeError "wait") /\
  oren_onion (Some hollow_backend) (initial_store idle) =
    Thrown (TypeError "onion").
Proof. repeat split. Qed.

(** C2, as amended: when the capability object is absent, every facade
    operation returns its offline result (the input unchanged, the inert
    token, the absent value) and does not throw.  When the object is present
    its members are called unchecked: an operation that reaches a missing
    member raises a [TypeError] ([$oren] and [$oren.wait] when the facade is
    available, [$oren.onion] always). *)
Theorem absent_capability_degrades {World} (b : Backend World)
    (s : Store World) (opts : Options) (arg : option WaitParams) :
  (oren None opts s = Returned (opts, s) /\
   oren_wait None arg s = Returned (inert_promise, s) /\
   oren_onion None s = Returned (None, s)) /\
  (oren_ok (Some b) s = true -> mergeOpts b = None ->
     oren (Some b) opts s = Thrown (TypeError "mergeOpts")) /\
  (oren_ok (Some b) s = true -> wait b = None ->
     oren_wait (Some b) arg s = Thrown (TypeError "wait")) /\
  (onion b = None -> oren_onion (Some b) s = Thrown (TypeError "onion")).
Proof.
  repeat split.
  - intros Hok Hm. rewrite (oren_delegates _ _ _ _ Hok), Hm. reflexivity.
  - intros Hok Hw. rewrite (wait_delegates _ _ _ _ Hok), Hw. reflexivity.
  - intros Ho. rewrite onion_present, Ho. reflexivity.
Qed.

Lemma absent_capability_degrades_witness :
  (oren None opts_404 (initial_store idle) =
     Returned (opts_404, initial_store idle) /\
   oren_wait None (Some (mkWaitParams 100)) (initial_store idle) =
     Returned (inert_promise, initial_store idle) /\
   oren_onion None (initial_store idle) = Returned (None, initial_store idle)) /\
  oren (Some hollow_backend) opts_404 (initial_store idle) =
    Thrown (TypeError "mergeOpts") /\
  oren_wait (Some hollow_backend) (Some (mkWaitParams 100)) (initial_store idle) =
    Thrown (TypeError "wait") /\
  oren_onion (Some hollow_backend) (initial_store idle) =
    Thrown (TypeError "onion").
Proof.
  destruct (absent_capability_degrades hollow_backend (initial_store idle)
              opts_404 (Some (mkWaitParams 100)))
    as (Habsent & Hmerge & Hwait & Honion).
  split; [exact Habsent|].
  split; [apply Hmerge; reflexivity|].
  split; [apply Hwait; reflexivity|].
  apply Honion; reflexivity.
Defined.

(** * Configuring *)

(** C3: when the facade is available and the capability performs the
    canonical merge, [$oren(N)] replaces the canonical configuration [P] with
    [merge P N] and returns it; in [merge P N] a member absent from [N] is
    [P]'s, a scalar or flag member present in [N] is [N]'s, a list member
    present in [N] is [P]'s list followed by [N]'s, and a map member present
    in [N] holds, at each key, [N]'s entry if there is one and [P]'s
    otherwise. *)
Theorem configure_merges {World} (b : Backend World) (s : Store World)
    (N : Options) :
  canonical_merge b ->
  oren_ok (Some b) s = true ->
  oren (Some b) N s =
    Returned (merge (oren_options s) N,
              set_oren_options (merge (oren_options s) N) s) /\
  (forall P f, field f N = None -> field f (merge P N) = field f P) /\
  (forall P f v, kind f = ScalarReplace \/ kind f = Flag ->
     field f N = Some v -> field f (merge P N) = Some v) /\
  (forall P f, kind f = ListAppend -> is_Some (field f N) ->
     field f (merge P N) =
       Some (ListValue (list_of (field f P) ++ list_of (field f N)))) /\
  (forall P f, kind f = MapMerge -> is_Some (field f N) ->
     exists m, field f (merge P N) = Some (MapValue m) /\
       forall k : string,
         m !! k =
           match map_of (field f N) !! k with
           | Some v => Some v
           | None => map_of (field f P) !! k
           end).
Proof.
  intros (g & Hg & Hcanon) Hok. split.
  - rewrite (oren_delegates _ _ _ _ Hok), Hg, Hcanon. reflexivity.
  - repeat split; intros P f.
    + apply merge_absent.
    + apply merge_overwrites.
    + apply merge_appends.
    + apply merge_merges.
Qed.

Lemma reference_backend_canonical : canonical_merge reference_backend.
Proof.
  exists (fun p => ret (merge (prev p) (next p))).
  split; [reflexivity|]. intros p s. reflexivity.
Defined.

Lemma configure_merges_witness :
  oren (Some reference_backend) opts_404 (initial_store idle) =
    Returned (opts_404, mkStore opts_404 idle) /\
  field Status (merge opts_disabled opts_404) = Some (NumberValue 404) /\
  field Disabled (merge opts_disabled opts_404) = Some (BoolValue true).
Proof.
  destruct (configure_merges reference_backend (initial_store idle) opts_404
              reference_backend_canonical eq_refl)
    as (Hcall & Habsent & Hover & _ & _).
  split; [exact Hcall|].
  split.
  - apply Hover; [by left | reflexivity].
  - rewrite (Habsent opts_disabled Disabled); reflexivity.
Defined.

(** C5: when the facade is unavailable (capability absent, or [disabled]
    set in the stored configuration), [$oren(opts)] returns [opts] itself
    and the store, [$oren.options] included, is what it was before the
    call. *)
Theorem configure_unavailable_is_noop {World} (cap : option (Backend World))
    (s : Store World) (opts : Options) :
  cap = None \/ disabled (oren_options s) = Some true ->
  oren_ok cap s = false /\
  exists s', oren cap opts s = Returned (opts, s') /\
             oren_options s' = oren_options s /\ s' = s.
Proof.
  intros H.
  assert (oren_ok cap s = false) as Hok.
  { destruct H as [-> | Hd]; [reflexivity | by apply ok_disabled]. }
  split; [exact Hok|]. exists s. by rewrite (oren_degraded _ _ _ _ Hok).
Qed.

Lemma configure_unavailable_is_noop_witness :
  oren_ok None (initial_store idle) = false /\
  exists s', oren None opts_404 (initial_store idle) = Returned (opts_404, s') /\
             oren_options s' = empty_options /\ s' = initial_store idle.
Proof.
  apply (configure_unavailable_is_noop None (initial_store idle) opts_404).
  left. reflexivity.
Defined.

(** C7: with the capability present, once an available call
    [$oren({disabled: true})] has left [disabled] set in the stored
    configuration, the facade is unavailable, and every later call of
    [$oren], whatever its argument, returns that argument and leaves the
    store, the [disabled] flag included, as it is. *)
Theorem disabled_sticks {World} (b : Backend World) (s s1 : Store World)
    (r : Options) (calls : list Options) :
  oren_ok (Some b) s = true ->
  oren (Some b) opts_disabled s = Returned (r, s1) ->
  disabled (oren_options s1) = Some true ->
  oren_ok (Some b) s1 = false /\
  oren (Some b) opts_404 s1 = Returned (opts_404, s1) /\
  oren_each (Some b) calls s1 = Returned (calls, s1).
Proof.
  intros _ _ Hd. pose proof (ok_disabled _ (Some b) _ Hd) as Hok.
  split; [exact Hok|]. split.
  - by apply oren_degraded.
  - by apply oren_each_degraded.
Qed.

Lemma disabled_sticks_witness :
  oren (Some reference_backend) opts_disabled (initial_store idle) =
    Returned (opts_disabled, disabled_store) /\
  oren_ok (Some reference_backend) disabled_store = false /\
  oren (Some reference_backend) opts_404 disabled_store =
    Returned (opts_404, disabled_store) /\
  oren_each (Some reference_backend) [opts_404; empty_options] disabled_store =
    Returned ([opts_404; empty_options], disabled_store).
Proof.
  split; [reflexivity|].
  apply (disabled_sticks reference_backend (initial_store idle) disabled_store
           opts_disabled [opts_404; empty_options]); reflexivity.
Defined.

(** C8: merging the empty partial into [merge P N] gives [merge P N] again;
    and calling [$oren] with the empty object leaves the store, hence the
    canonical configuration, unchanged, whether the facade is unavailable or
    the capability performs the canonical merge. *)
Theorem merge_empty_is_noop {World} (cap : option (Backend World))
    (s : Store World) (P N : Options) :
  (forall b, cap = Some b -> canonical_merge b) ->
  merge (merge P N) empty_options = merge P N /\
  exists r, oren cap empty_options s = Returned (r, s).
Proof.
  intros Hcanon. split; [apply merge_empty_r|].
  destruct (oren_ok cap s) eqn:Hok.
  - destruct cap as [b|]; [|discriminate].
    destruct (Hcanon b eq_refl) as (g & Hg & Hmerge).
    exists (oren_options s).
    rewrite (oren_delegates _ _ _ _ Hok), Hg, Hmerge. simpl.
    by rewrite merge_empty_r, set_same_options.
  - exists empty_options. by apply oren_degraded.
Qed.

Lemma merge_empty_is_noop_witness :
  merge (merge opts_disabled opts_404) empty_options =
    merge opts_disabled opts_404 /\
  exists r, oren (Some reference_backend) empty_options (mkStore opts_404 idle) =
              Returned (r, mkStore opts_404 idle).
Proof.
  apply (merge_empty_is_noop (Some reference_backend) (mkStore opts_404 idle)
           opts_disabled opts_404).
  intros b Hb. injection Hb as <-. exact reference_backend_canonical.
Defined.

(** * Waiting *)

(** C6: whenever the facade is unavailable, [$oren.wait] returns, without
    touching the store, a token whose [data] is the empty string, whose
    [props] is the empty object and whose [resolve] can be called any number
    of times in any store: every such run returns and leaves the store as it
    found it. *)
Theorem wait_unavailable_is_inert {World} (cap : option (Backend World))
    (s : Store World) (arg : option WaitParams) :
  oren_ok cap s = false ->
  exists t, oren_wait cap arg s = Returned (t, s) /\
    data t = EmptyString /\
    props t = ∅ /\
    forall (n : nat) (s' : Store World),
      repeat_call n (resolve t) s' = Returned (tt, s').
Proof.
  intros Hok. exists inert_promise.
  split; [by apply wait_degraded|].
  split; [reflexivity|]. split; [reflexivity|].
  intros n s'. apply repeat_inert.
Qed.

Lemma wait_unavailable_is_inert_witness :
  exists t, oren_wait (Some reference_backend) None disabled_store =
              Returned (t, disabled_store) /\
    data t = EmptyString /\
    props t = ∅ /\
    forall (n : nat) (s' : Store Coordinator),
      repeat_call n (resolve t) s' = Returned (tt, s').
Proof.
  apply (wait_unavailable_is_inert (Some reference_backend) disabled_store None).
  reflexivity.
Defined.

(** C9: when [$oren.wait] is called without argument while the facade is
    available, the call is the call of the capability's [wait] member on the
    parameter object [{timeoutMs: 5000}], whatever that member is. *)
Theorem wait_default_timeout {World} (b : Backend World)
    (f : WaitParams -> M World (WaitPromise World)) (s : Store World) :
  wait b = Some f ->
  oren_ok (Some b) s = true ->
  oren_wait (Some b) None s = f {| timeoutMs := 5000 |} s.
Proof.
  intros Hf Hok. rewrite (wait_delegates _ _ _ _ Hok), Hf. reflexivity.
Qed.

Lemma wait_default_timeout_witness :
  oren_wait (Some reference_backend) None (initial_store idle) =
    issue {| timeoutMs := 5000 |} (initial_store idle).
Proof.
  apply (wait_default_timeout reference_backend issue (initial_store idle));
    reflexivity.
Defined.

(** * Module initialisation *)

(** C10: when the module has just been loaded, [$oren.options] is the empty
    object, no member of it is set ([disabled] in particular), and
    [$oren.ok()] is true exactly when the capability object is present; with
    no capability, calls of [$oren] keep the store in that state. *)
Theorem initial_availability {World} (cap : option (Backend World))
    (w : World) (calls : list Options) :
  oren_options (initial_store w) = empty_options /\
  (forall f, field f (oren_options (initial_store w)) = None) /\
  disabled (oren_options (initial_store w)) = None /\
  (oren_ok cap (initial_store w) = true <-> is_Some cap) /\
  oren_each None calls (initial_store w) = Returned (calls, initial_store w).
Proof.
  split; [reflexivity|]. split; [by intros []|]. split; [reflexivity|].
  split.
  - unfold oren_ok. simpl. rewrite andb_true_r. apply online_present.
  - by apply oren_each_degraded.
Qed.

Lemma initial_availability_witness :
  oren_ok (Some reference_backend) (initial_store idle) = true /\
  is_Some (Some reference_backend).
Proof.
  destruct (initial_availability (Some reference_backend) idle [])
    as (_ & _ & _ & [Hto Hfrom] & _).
  split; [apply Hfrom; by eexists | apply Hto; reflexivity].
Defined.

(** * Escaping *)

(** C4: for every JSON value, the Escaper's output is the JSON text in which
    each [&], [<] and [>] has been replaced by its numeric escape and every
    other character stands as it was; the output holds no literal [&], [<]
    or [>].  The same holds of the escaping of any text, however the JSON
    encoder produced it. *)
Theorem encode_escapes (v : Json) (text : string) :
  (Escaper.encode v = Escaper.escape_spec (Escaper.stringify v) /\
   Escaper.occurs "&" (Escaper.encode v) = false /\
   Escaper.occurs "<" (Escaper.encode v) = false /\
   Escaper.occurs ">" (Escaper.encode v) = false) /\
  (Escaper.escape text = Escaper.escape_spec text /\
   Escaper.occurs "&" (Escaper.escape text) = false /\
   Escaper.occurs "<" (Escaper.escape text) = false /\
   Escaper.occurs ">" (Escaper.escape text) = false).
Proof.
  unfold Escaper.encode. rewrite !escape_charwise.
  repeat split; apply escape_spec_clean; auto.
Qed.

(** * Further properties of the facade *)

(** X1: a call of the facade throws exactly when the capability object is
    present, the call reaches one of its members ([$oren] and [$oren.wait]
    only when [$oren.ok()] holds, [$oren.onion] always) and either the member
    is missing, which raises a [TypeError], or the member itself throws, in
    which case its exception is passed on unchanged. *)
Theorem facade_throws {World} (cap : option (Backend World))
    (s : Store World) (opts : Options) (arg : option WaitParams) (e : Error) :
  (oren cap opts s = Thrown e <->
     exists b, cap = Some b /\ oren_ok cap s = true /\
       match mergeOpts b with
       | Some f => f (mkMergeParams (oren_options s) opts) s = Thrown e
       | None => e = TypeError "mergeOpts"
       end) /\
  (oren_wait cap arg s = Thrown e <->
     exists b, cap = Some b /\ oren_ok cap s = true /\
       match wait b with
       | Some f => f (default default_wait_params arg) s = Thrown e
       | None => e = TypeError "wait"
       end) /\
  (oren_onion cap s = Thrown e <->
     exists b, cap = Some b /\
       match onion b with
       | Some f => f s = Thrown e
       | None => e = TypeError "onion"
       end).
Proof.
  split; [|split].
  - split.
    + intros H. destruct (oren_ok cap s) eqn:Hok;
        [|by rewrite (oren_degraded _ _ _ _ Hok) in H].
      destruct cap as [b|]; [|discriminate]. exists b.
      split; [reflexivity|]. split; [reflexivity|].
      rewrite (oren_delegates _ _ _ _ Hok) in H.
      destruct (mergeOpts b) as [f|]; [|congruence].
      destruct (f _ s) as [[merged s1]|e1]; congruence.
    + intros (b & -> & Hok & H). rewrite (oren_delegates _ _ _ _ Hok).
      destruct (mergeOpts b) as [f|]; [|congruence]. by rewrite H.
  - split.
    + intros H. destruct (oren_ok cap s) eqn:Hok;
        [|by rewrite (wait_degraded _ _ _ _ Hok) in H].
      destruct cap as [b|]; [|discriminate]. exists b.
      split; [reflexivity|]. split; [reflexivity|].
      rewrite (wait_delegates _ _ _ _ Hok) in H.
      destruct (wait b) as [f|]; congruence.
    + intros (b & -> & Hok & H). rewrite (wait_delegates _ _ _ _ Hok).
      destruct (wait b) as [f|]; congruence.
  - split.
    + intros H. destruct cap as [b|]; [|discriminate]. exists b.
      split; [reflexivity|]. rewrite onion_present in H.
      destruct (onion b) as [f|]; congruence.
    + intros (b & -> & H). rewrite onion_present.
      destruct (onion b) as [f|]; congruence.
Qed.

Lemma facade_throws_witness :
  oren (Some failing_backend) opts_404 (initial_store idle) =
    Thrown (HostError "mergeOpts failed") /\
  oren_wait (Some hollow_backend) None (initial_store idle) =
    Thrown (TypeError "wait") /\
  oren_onion (Some failing_backend) disabled_store =
    Thrown (HostError "onion failed").
Proof.
  split; [|split].
  - apply (facade_throws (Some failing_backend) (initial_store idle) opts_404
             None (HostError "mergeOpts failed")).
    exists failing_backend. repeat split.
  - apply (facade_throws (Some hollow_backend) (initial_store idle) opts_404
             None (TypeError "wait")).
    exists hollow_backend. repeat split.
  - apply (facade_throws (Some failing_backend) disabled_store opts_404
             None (HostError "onion failed")).
    exists failing_backend. repeat split.
Defined.

(** X2: whatever [$oren] returns, it is either its own argument, the facade
    being unavailable and the store untouched, or the value the capability's
    [mergeOpts] returned for [{prev: $oren.options, next: opts}], which is
    then also what [$oren.options] holds; the rest of the store is as
    [mergeOpts] left it. *)
Theorem oren_returns {World} (cap : option (Backend World))
    (s s' : Store World) (opts r : Options) :
  oren cap opts s = Returned (r, s') ->
  (oren_ok cap s = false /\ r = opts /\ s' = s) \/
  (oren_ok cap s = true /\ oren_options s' = r /\
   exists b f s1, cap = Some b /\ mergeOpts b = Some f /\
     f (mkMergeParams (oren_options s) opts) s = Returned (r, s1) /\
     world s' = world s1).
Proof.
  intros H. destruct (oren_ok cap s) eqn:Hok.
  - right. destruct cap as [b|]; [|discriminate].
    rewrite (oren_delegates _ _ _ _ Hok) in H.
    destruct (mergeOpts b) as [f|] eqn:Hf; [|discriminate].
    destruct (f _ s) as [[merged s1]|e1] eqn:Hcall; [|discriminate].
    injection H as <- <-. split; [reflexivity|]. split; [reflexivity|].
    exists b, f, s1. by repeat split.
  - left. rewrite (oren_degraded _ _ _ _ Hok) in H.
    injection H as <- <-. by repeat split.
Qed.

Lemma oren_returns_witness :
  (oren_ok (Some reference_backend) (initial_store idle) = false /\
   opts_404 = opts_404 /\ mkStore opts_404 idle = initial_store idle) \/
  (oren_ok (Some reference_backend) (initial_store idle) = true /\
   oren_options (mkStore opts_404 idle) = opts_404 /\
   exists b f s1, Some reference_backend = Some b /\ mergeOpts b = Some f /\
     f (mkMergeParams (oren_options (initial_store idle)) opts_404)
       (initial_store idle) = Returned (opts_404, s1) /\
     world (mkStore opts_404 idle) = world s1).
Proof.
  apply (oren_returns (Some reference_backend) (initial_store idle)
           (mkStore opts_404 idle) opts_404 opts_404).
  reflexivity.
Defined.

(** X3: whatever [$oren.wait] returns, it is either the inert token, the
    facade being unavailable and the store untouched, or exactly what the
    capability's [wait] returned for the caller's parameter (for
    [{timeoutMs: 5000}] when there is none); the facade neither checks nor
    changes the parameter. *)
Theorem wait_returns {World} (cap : option (Backend World))
    (s s' : Store World) (arg : option WaitParams) (t : WaitPromise World) :
  oren_wait cap arg s = Returned (t, s') ->
  (oren_ok cap s = false /\ t = inert_promise /\ s' = s) \/
  (oren_ok cap s = true /\
   exists b f, cap = Some b /\ wait b = Some f /\
     f (default default_wait_params arg) s = Returned (t, s')).
Proof.
  intros H. destruct (oren_ok cap s) eqn:Hok.
  - right. destruct cap as [b|]; [|discriminate].
    rewrite (wait_delegates _ _ _ _ Hok) in H.
    destruct (wait b) as [f|] eqn:Hf; [|discriminate].
    split; [reflexivity|]. by exists b, f.
  - left. rewrite (wait_degraded _ _ _ _ Hok) in H.
    injection H as <- <-. by repeat split.
Qed.

Lemma wait_returns_witness :
  (oren_ok (Some reference_backend) disabled_store = false /\
   @inert_promise Coordinator = inert_promise /\
   disabled_store = disabled_store) \/
  (oren_ok (Some reference_backend) disabled_store = true /\
   exists b f, Some reference_backend = Some b /\ wait b = Some f /\
     f (default default_wait_params (Some (mkWaitParams (-1)))) disabled_store =
       Returned (inert_promise, disabled_store)).
Proof.
  apply (wait_returns (Some reference_backend) disabled_store disabled_store
           (Some (mkWaitParams (-1))) inert_promise).
  reflexivity.
Defined.

(** X4: an explicit parameter of [$oren.wait] reaches the capability's [wait]
    as it is, whatever its [timeoutMs] (zero and negative values included),
    when the facade is available. *)
Theorem wait_forwards_params {World} (b : Backend World)
    (f : WaitParams -> M World (WaitPromise World)) (s : Store World)
    (p : WaitParams) :
  wait b = Some f ->
  oren_ok (Some b) s = true ->
  oren_wait (Some b) (Some p) s = f p s.
Proof.
  intros Hf Hok. rewrite (wait_delegates _ _ _ _ Hok), Hf. reflexivity.
Qed.

Lemma wait_forwards_params_witness :
  oren_wait (Some reference_backend) (Some (mkWaitParams (-1)))
    (initial_store idle) =
  issue (mkWaitParams (-1)) (initial_store idle).
Proof.
  apply (wait_forwards_params reference_backend issue (initial_store idle)
           (mkWaitParams (-1))); reflexivity.
Defined.

(** X5: whatever [$oren.onion] returns, it is either [undefined], the
    capability object being absent and the store untouched, or exactly what
    the capability's [onion] returned; the stored configuration plays no part
    in the choice. *)
Theorem onion_returns {World} (cap : option (Backend World))
    (s s' : Store World) (a : option OnionAddr) :
  oren_onion cap s = Returned (a, s') ->
  (cap = None /\ a = None /\ s' = s) \/
  (exists b f, cap = Some b /\ onion b = Some f /\ f s = Returned (a, s')).
Proof.
  intros H. destruct cap as [b|].
  - right. rewrite onion_present in H.
    destruct (onion b) as [f|] eqn:Hf; [|discriminate]. by exists b, f.
  - left. rewrite onion_absent in H. injection H as <- <-. by repeat split.
Qed.

Lemma onion_returns_witness :
  (Some reference_backend = None /\ Some reference_addr = None /\
   disabled_store = disabled_store) \/
  (exists b f, Some reference_backend = Some b /\ onion b = Some f /\
     f disabled_store = Returned (Some reference_addr, disabled_store)).
Proof.
  apply (onion_returns (Some reference_backend) disabled_store disabled_store
           (Some reference_addr)).
  reflexivity.
Defined.

(** X6: with a capability whose [mergeOpts] computes [g] from its parameter
    and leaves the store alone, a series of calls of [$oren] is a left fold:
    each call stores and returns [g {prev, next}] with [prev] the result of
    the call before, until a stored configuration has [disabled] set; from
    then on every call returns its own argument and the configuration stays
    frozen. *)
Theorem configure_folds {World} (b : Backend World)
    (g : MergeParams -> Options) (calls : list Options) (s : Store World) :
  pure_merge b g ->
  oren_each (Some b) calls s =
    Returned (configure_answers g (oren_options s) calls,
              set_oren_options
                (fold_left (configure_step g) calls (oren_options s)) s).
Proof.
  intros (f & Hf & Hpure). revert s.
  induction calls as [|opts rest IH]; intros s.
  - simpl. unfold ret. by rewrite set_same_options.
  - simpl. unfold bind at 1.
    destruct (truthy (disabled (oren_options s))) eqn:Hd.
    + assert (oren_ok (Some b) s = false) as Hok
        by (rewrite ok_present, Hd; reflexivity).
      assert (configure_step g (oren_options s) opts = oren_options s) as ->
        by (unfold configure_step; by rewrite Hd).
      assert (configure_answer g (oren_options s) opts = opts) as ->
        by (unfold configure_answer; by rewrite Hd).
      rewrite (oren_degraded _ _ _ _ Hok).
      unfold bind at 1. rewrite IH. reflexivity.
    + assert (oren_ok (Some b) s = true) as Hok
        by (rewrite ok_present, Hd; reflexivity).
      assert (configure_step g (oren_options s) opts =
              g (mkMergeParams (oren_options s) opts)) as ->
        by (unfold configure_step; by rewrite Hd).
      assert (configure_answer g (oren_options s) opts =
              g (mkMergeParams (oren_options s) opts)) as ->
        by (unfold configure_answer; by rewrite Hd).
      rewrite (oren_delegates _ _ _ _ Hok), Hf, Hpure.
      unfold bind at 1. rewrite IH. reflexivity.
Qed.

Lemma configure_folds_witness :
  oren_each (Some reference_backend) [opts_404; opts_disabled; opts_enabled]
    (initial_store idle) =
  Returned ([opts_404; merge opts_404 opts_disabled; opts_enabled],
            mkStore (merge opts_404 opts_disabled) idle).
Proof.
  apply (configure_folds reference_backend
           (fun p => merge (prev p) (next p))
           [opts_404; opts_disabled; opts_enabled] (initial_store idle)).
  exists (fun p => ret (merge (prev p) (next p))).
  split; [reflexivity|]. intros p s. reflexivity.
Defined.

(** X7: with no capability object, any series of calls of [$oren],
    [$oren.wait] and [$oren.onion], in any order and from any store, runs to
    its end without throwing, answers each call with its offline result and
    leaves the store as it was. *)
Theorem session_offline {World} (calls : list Call) (s : Store World) :
  session None calls s = Returned (map offline_answer calls, s).
Proof.
  induction calls as [|c rest IH]; [reflexivity|].
  simpl. unfold bind at 1.
  assert (perform None c s = Returned (offline_answer c, s)) as ->
    by (destruct c; reflexivity).
  unfold bind at 1. rewrite IH. reflexivity.
Qed.

(** X8: while [$oren.ok()] is false, any series of calls of [$oren] and
    [$oren.wait] runs to its end without throwing, whatever the capability
    object is (even one that lacks its members or whose members throw),
    answers each call with its offline result and leaves the store as it
    was; availability therefore stays false. *)
Theorem session_unavailable {World} (cap : option (Backend World))
    (calls : list Call) (s : Store World) :
  oren_ok cap s = false ->
  forallb (fun c => negb (is_onion c)) calls = true ->
  session cap calls s = Returned (map offline_answer calls, s).
Proof.
  intros Hok. induction calls as [|c rest IH]; [reflexivity|].
  simpl. intros Hcalls. apply andb_true_iff in Hcalls as [Hc Hrest].
  unfold bind at 1.
  assert (perform cap c s = Returned (offline_answer c, s)) as ->.
  { destruct c as [opts|arg|]; simpl in *; [| |discriminate]; unfold bind.
    - by rewrite (oren_degraded _ _ _ _ Hok).
    - by rewrite (wait_degraded _ _ _ _ Hok). }
  unfold bind at 1. rewrite (IH Hrest). reflexivity.
Qed.

Lemma session_unavailable_witness :
  session (Some failing_backend)
    [CallOren opts_enabled; CallWait None; CallOren opts_404] disabled_store =
  Returned ([AnsOptions opts_enabled; AnsPromise inert_promise;
             AnsOptions opts_404], disabled_store).
Proof.
  apply (session_unavailable (Some failing_backend)
           [CallOren opts_enabled; CallWait None; CallOren opts_404]
           disabled_store); reflexivity.
Defined.

(** X9: [$oren.ok()] is true exactly when [$oren.online()] is true and the
    stored [disabled] is not [true]; a stored [disabled: false] counts like
    an absent one, and [$oren.online()] is true exactly when the capability
    object is there, whatever the store holds. *)
Theorem ok_characterised {World} (cap : option (Backend World))
    (s : Store World) :
  (oren_ok cap s = true <->
     oren_online cap = true /\ disabled (oren_options s) <> Some true) /\
  (oren_online cap = true <-> is_Some cap).
Proof.
  split; [|apply online_present].
  unfold oren_ok. rewrite andb_true_iff.
  destruct (disabled (oren_options s)) as [[|]|]; simpl;
    split; intros [Hon Hd]; split; try done.
Qed.

Lemma ok_characterised_witness :
  oren_ok (Some hollow_backend) (mkStore opts_enabled idle) = true /\
  oren_online (Some hollow_backend) = true.
Proof.
  destruct (ok_characterised (Some hollow_backend) (mkStore opts_enabled idle))
    as [[_ Hok] [_ Hon]].
  split.
  - apply Hok. split; [reflexivity | discriminate].
  - apply Hon. by eexists.
Defined.

(** * Loading [dist/index.js] *)


